(** * Binary search, binary stride and the crossover finder

    A shallow embedding of [binary_search], [binary_stride] and
    [find_crossover_point] of [binary-stride.cpp], with the properties the
    specification states about them.

    - A C++ [int] is a 32-bit two's-complement integer, modelled as a [Z]
      inside [[min_int, max_int]].  Signed overflow is undefined behaviour in
      C++: the arithmetic of the model is checked and a run that overflows
      stops with the fault [Overflow].
    - An [int a[]] argument is a base address and nothing else; the model
      pairs the contents with the extent of the underlying object so that a
      read outside it is observed: it stops the run with [OutOfBounds i].
    - Loops are run on fuel.  The entry points choose fuel that is never
      exhausted (see [binary_search_halts], [binary_stride_halts] and
      [find_crossover_point_halts]). *)

From Stdlib Require Import ZArith List Lia Bool Sorted.
Import ListNotations.
Open Scope Z_scope.

(** ** Machine integers *)

Module Int.

Definition min_int : Z := - 2 ^ 31.
Definition max_int : Z := 2 ^ 31 - 1.

Definition in_range (z : Z) : bool := (min_int <=? z) && (z <=? max_int).

(** What two's-complement hardware leaves in the register after an
    overflowing operation. *)
Definition wrap (z : Z) : Z := (z + 2 ^ 31) mod 2 ^ 32 - 2 ^ 31.

End Int.

(** ** Outcomes of a run *)

Inductive fault : Type :=
| OutOfBounds (i : Z)   (* a[i] read outside the array object *)
| Overflow.             (* signed overflow *)

Inductive outcome (A : Type) : Type :=
| Ret (x : A)
| Fault (f : fault)
| OutOfFuel.

Arguments Ret {A} x.
Arguments Fault {A} f.
Arguments OutOfFuel {A}.

Definition bind {A B : Type} (m : outcome A) (k : A -> outcome B) : outcome B :=
  match m with
  | Ret x => k x
  | Fault f => Fault f
  | OutOfFuel => OutOfFuel
  end.

Notation "x <- m ;; k" := (bind m (fun x => k))
  (at level 61, m at next level, right associativity).

Definition add (x y : Z) : outcome Z :=
  if Int.in_range (x + y) then Ret (x + y) else Fault Overflow.

Definition sub (x y : Z) : outcome Z :=
  if Int.in_range (x - y) then Ret (x - y) else Fault Overflow.

(** ** Arrays *)

Record array : Type := mkArray { len : Z; elt : Z -> Z }.

Definition of_list (l : list Z) : array :=
  {| len := Z.of_nat (length l); elt := fun i => nth (Z.to_nat i) l 0 |}.

Definition read (a : array) (i : Z) : outcome Z :=
  if (0 <=? i) && (i <? len a) then Ret (elt a i) else Fault (OutOfBounds i).

Definition sorted (a : array) : Prop :=
  forall i j, 0 <= i -> i <= j -> j < len a -> elt a i <= elt a j.

Definition occurs (a : array) (v : Z) : Prop :=
  exists i, 0 <= i < len a /\ elt a i = v.

(** ** binary_search *)

(** [(l + r) >> 1] *)
Definition midpoint (l r : Z) : outcome Z :=
  s <- add l r ;; Ret (Z.shiftr s 1).

Fixpoint bs_loop (fuel : nat) (a : array) (needle l r : Z) : outcome Z :=
  if l <=? r then
    match fuel with
    | O => OutOfFuel
    | S fuel' =>
        mid <- midpoint l r ;;
        v <- read a mid ;;
        if v =? needle then Ret mid
        else if v <? needle then
          l' <- add mid 1 ;; bs_loop fuel' a needle l' r
        else
          r' <- sub mid 1 ;; bs_loop fuel' a needle l r'
    end
  else Ret (-1).

(** The range [[l, r]] at least halves at every iteration and starts below
    2^32: 32 iterations are never used up ([binary_search_halts]). *)
Definition binary_search (a : array) (sz needle : Z) : outcome Z :=
  r <- sub sz 1 ;; bs_loop 32 a needle 0 r.

(** ** The stride descent shared by binary_stride and find_crossover_point *)

(** [while (test(pos+stride)) pos += stride;] and the position it ends at.
    The sum of [pos += stride] is the one the test has just computed. *)
Fixpoint advance (fuel : nat) (test : Z -> outcome bool) (pos stride : Z)
  : outcome Z :=
  match fuel with
  | O => OutOfFuel
  | S fuel' =>
      p <- add pos stride ;;
      b <- test p ;;
      if b then advance fuel' test p stride else Ret pos
  end.

(** [for (stride = ...; stride >= 1; stride /= 2) body] *)
Fixpoint stride_for (fuel : nat) (body : Z -> Z -> outcome Z) (pos stride : Z)
  : outcome Z :=
  if 1 <=? stride then
    match fuel with
    | O => OutOfFuel
    | S fuel' =>
        pos' <- body pos stride ;;
        stride_for fuel' body pos' (Z.quot stride 2)
    end
  else Ret pos.

Definition descend (fuel : nat) (test : Z -> outcome bool) (sz : Z) : outcome Z :=
  stride_for fuel (advance fuel test) 0 (Z.quot sz 2).

(** Fuel for the stride loops: the stride is halved at most 31 times, and a
    loop that advances has read inside the array at a larger index each
    time. *)
Definition budget (a : array) : nat := (32 + Z.to_nat (len a))%nat.

(** ** binary_stride *)

(** [pos+stride < sz && a[pos+stride] <= needle], at [p = pos+stride] *)
Definition stride_test (a : array) (sz needle : Z) (p : Z) : outcome bool :=
  if p <? sz then v <- read a p ;; Ret (v <=? needle) else Ret false.

Definition binary_stride_fuel (fuel : nat) (a : array) (sz needle : Z)
  : outcome Z :=
  pos <- descend fuel (stride_test a sz needle) sz ;;
  v <- read a pos ;;
  if v =? needle then Ret pos else Ret (-1).

Definition binary_stride (a : array) (sz needle : Z) : outcome Z :=
  binary_stride_fuel (budget a) a sz needle.

(** ** find_crossover_point *)

Section Crossover.

(** [fn] is declared nowhere in the source: the caller's function, taken
    as a function on [int]. *)
Variable fn : Z -> Z.

(** [fn(a[pos+stride]) <= 0], at [p = pos+stride] *)
Definition crossover_test (a : array) (p : Z) : outcome bool :=
  v <- read a p ;; Ret (fn v <=? 0).

Definition find_crossover_point_fuel (fuel : nat) (a : array) (sz : Z)
  : outcome Z :=
  descend fuel (crossover_test a) sz.

Definition find_crossover_point (a : array) (sz : Z) : outcome Z :=
  find_crossover_point_fuel (budget a) a sz.

End Crossover.

(** ** The arrays of the test program *)

Definition a1 : array := of_list [1; 2; 3; 4; 5; 6; 7; 8; 9].
Definition a3 : array := of_list [4].
Definition a4 : array := of_list [1; 4; 9].
Definition a5 : array := of_list [1; 4].
Definition a6 : array := of_list [4; 9].
Definition a7 : array := of_list [].

(** Arrays too large to write down: [n] zeros, and [0, 1, ..., n-1]. *)
Definition zeros (n : Z) : array := {| len := n; elt := fun _ => 0 |}.
Definition iota (n : Z) : array := {| len := n; elt := fun i => i |}.

(** ** The test program

    [main] sends 25 values to [std::cout], one per line: the result of
    [binary_stride] for the needle 4 on the seven arrays, the element at the
    returned index for the first six, and the results for the needles 14 and
    0 on the first six.  Each size is [sizeof(a)/sizeof(a[0])], the number
    of elements. *)

Definition a2 : array := of_list [1; 2; 3; 4; 5; 6; 7; 8; 9].

Definition main_prints : list (outcome Z) :=
  [ binary_stride a1 (len a1) 4;
    binary_stride a2 (len a2) 4;
    binary_stride a3 (len a3) 4;
    binary_stride a4 (len a4) 4;
    binary_stride a5 (len a5) 4;
    binary_stride a6 (len a6) 4;
    binary_stride a7 (len a7) 4;
    (i <- binary_stride a1 (len a1) 4 ;; read a1 i);
    (i <- binary_stride a2 (len a2) 4 ;; read a2 i);
    (i <- binary_stride a3 (len a3) 4 ;; read a3 i);
    (i <- binary_stride a4 (len a4) 4 ;; read a4 i);
    (i <- binary_stride a5 (len a5) 4 ;; read a5 i);
    (i <- binary_stride a6 (len a6) 4 ;; read a6 i);
    binary_stride a1 (len a1) 14;
    binary_stride a2 (len a2) 14;
    binary_stride a3 (len a3) 14;
    binary_stride a4 (len a4) 14;
    binary_stride a5 (len a5) 14;
    binary_stride a6 (len a6) 14;
    binary_stride a1 (len a1) 0;
    binary_stride a2 (len a2) 0;
    binary_stride a3 (len a3) 0;
    binary_stride a4 (len a4) 0;
    binary_stride a5 (len a5) 0;
    binary_stride a6 (len a6) 0 ].

(** The statements run in order; the lines printed before the run ends, and
    how it ends. *)
Fixpoint print_all (stmts : list (outcome Z)) : list Z * outcome unit :=
  match stmts with
  | [] => ([], Ret tt)
  | Ret v :: rest => let (out, r) := print_all rest in (v :: out, r)
  | Fault f :: _ => ([], Fault f)
  | OutOfFuel :: _ => ([], OutOfFuel)
  end.

Definition main : list Z * outcome unit := print_all main_prints.

(** * Properties *)

(** ** Arithmetic and reads that succeed *)

Lemma in_range_true (z : Z) :
  -2147483648 <= z <= 2147483647 -> Int.in_range z = true.
Proof.
  intros H. unfold Int.in_range, Int.min_int, Int.max_int.
  change (2 ^ 31) with 2147483648.
  apply andb_true_iff. split; apply Z.leb_le; lia.
Qed.

Lemma in_range_false (z : Z) :
  2147483647 < z \/ z < -2147483648 -> Int.in_range z = false.
Proof.
  intros H. unfold Int.in_range, Int.min_int, Int.max_int.
  change (2 ^ 31) with 2147483648.
  apply andb_false_iff.
  destruct H; [right | left]; apply Z.leb_gt; lia.
Qed.

Lemma add_ret (x y : Z) :
  -2147483648 <= x + y <= 2147483647 -> add x y = Ret (x + y).
Proof. intros H. unfold add. now rewrite in_range_true. Qed.

Lemma sub_ret (x y : Z) :
  -2147483648 <= x - y <= 2147483647 -> sub x y = Ret (x - y).
Proof. intros H. unfold sub. now rewrite in_range_true. Qed.

Lemma read_ret (a : array) (i : Z) :
  0 <= i < len a -> read a i = Ret (elt a i).
Proof.
  intros [H0 H1]. unfold read.
  apply Z.leb_le in H0. apply Z.ltb_lt in H1. now rewrite H0, H1.
Qed.

Lemma read_inv (a : array) (i v : Z) :
  read a i = Ret v -> 0 <= i < len a /\ v = elt a i.
Proof.
  unfold read. destruct (0 <=? i) eqn:H0; destruct (i <? len a) eqn:H1;
    simpl; intros H; try discriminate.
  apply Z.leb_le in H0. apply Z.ltb_lt in H1. inversion H. lia.
Qed.

Lemma midpoint_ret (l r : Z) :
  -2147483648 <= l + r <= 2147483647 -> midpoint l r = Ret ((l + r) / 2).
Proof.
  intros H. unfold midpoint. rewrite add_ret by assumption. simpl.
  now rewrite Z.shiftr_div_pow2 by lia.
Qed.

(** ** binary_search on arrays whose bounds cannot overflow *)

Section BinarySearch.

Variables (a : array) (needle : Z).
Hypothesis Hsorted : sorted a.
Hypothesis Hlen : len a <= 2 ^ 30.

(** The loop started on the inclusive range [[l, r]] returns an index of the
    needle inside the range, or -1 when the range does not hold it. *)
Lemma bs_loop_correct (fuel : nat) :
  forall l r,
    0 <= l -> r < len a -> r - l + 1 < 2 ^ Z.of_nat fuel ->
    exists i, bs_loop fuel a needle l r = Ret i /\
      ((l <= i <= r /\ elt a i = needle) \/
       (i = -1 /\ forall j, l <= j <= r -> elt a j <> needle)).
Proof.
  change (2 ^ 30) with 1073741824 in Hlen.
  induction fuel as [|fuel IH]; intros l r Hl Hr Hsize.
  - simpl in Hsize. destruct (l <=? r) eqn:Hlr; simpl; rewrite Hlr.
    + apply Z.leb_le in Hlr. lia.
    + apply Z.leb_gt in Hlr. exists (-1). split; [reflexivity|].
      right. split; [reflexivity|]. intros j Hj. lia.
  - rewrite Nat2Z.inj_succ, Z.pow_succ_r in Hsize by lia.
    simpl. destruct (l <=? r) eqn:Hlr.
    + apply Z.leb_le in Hlr.
      rewrite midpoint_ret by lia. simpl.
      assert (Hmid : l <= (l + r) / 2 <= r).
      { split; [apply Z.div_le_lower_bound | apply Z.div_le_upper_bound]; lia. }
      set (mid := (l + r) / 2) in *.
      assert (Hhalf : 2 * mid <= l + r < 2 * mid + 2).
      { unfold mid. pose proof (Z.div_mod (l + r) 2 ltac:(lia)).
        pose proof (Z.mod_pos_bound (l + r) 2 ltac:(lia)). lia. }
      rewrite read_ret by lia. simpl.
      destruct (elt a mid =? needle) eqn:Heq.
      * apply Z.eqb_eq in Heq. exists mid. split; [reflexivity|]. left. lia.
      * apply Z.eqb_neq in Heq.
        destruct (elt a mid <? needle) eqn:Hlt.
        -- apply Z.ltb_lt in Hlt. rewrite add_ret by lia. simpl.
           destruct (IH (mid + 1) r) as [i [Hi Hspec]]; try lia.
           exists i. split; [exact Hi|].
           destruct Hspec as [[Hin Hv] | [Hm Hnone]]; [left; lia|].
           right. split; [exact Hm|]. intros j Hj.
           destruct (Z_le_gt_dec j mid) as [Hjm | Hjm].
           ++ pose proof (Hsorted j mid ltac:(lia) Hjm ltac:(lia)). lia.
           ++ apply Hnone. lia.
        -- apply Z.ltb_ge in Hlt. rewrite sub_ret by lia. simpl.
           destruct (IH l (mid - 1)) as [i [Hi Hspec]]; try lia.
           exists i. split; [exact Hi|].
           destruct Hspec as [[Hin Hv] | [Hm Hnone]]; [left; lia|].
           right. split; [exact Hm|]. intros j Hj.
           destruct (Z_le_gt_dec mid j) as [Hjm | Hjm].
           ++ pose proof (Hsorted mid j ltac:(lia) Hjm ltac:(lia)). lia.
           ++ apply Hnone. lia.
    + apply Z.leb_gt in Hlr. exists (-1). split; [reflexivity|].
      right. split; [reflexivity|]. intros j Hj. lia.
Qed.

(** On a sorted array of at most 2^30 elements, [binary_search] returns an
    index of the needle when it occurs and -1 when it does not. *)
Theorem binary_search_correct :
  0 <= len a ->
  exists i, binary_search a (len a) needle = Ret i /\
    ((0 <= i < len a /\ elt a i = needle) \/
     (i = -1 /\ ~ occurs a needle)).
Proof.
  intros H0. unfold binary_search.
  change (2 ^ 30) with 1073741824 in Hlen.
  rewrite sub_ret by lia. unfold bind at 1.
  assert (Hsize : len a - 1 - 0 + 1 < 2 ^ Z.of_nat 32).
  { change (2 ^ Z.of_nat 32) with 4294967296. lia. }
  destruct (bs_loop_correct 32 0 (len a - 1) ltac:(lia) ltac:(lia) Hsize)
    as [i [Hi Hspec]].
  exists i. split; [exact Hi|].
  destruct Hspec as [[Hin Hv] | [Hm Hnone]]; [left; split; [lia | exact Hv]|].
  right. split; [exact Hm|]. intros [j [Hj Hv]]. apply (Hnone j); [lia | exact Hv].
Qed.

End BinarySearch.

(** ** The stride descent on a test that holds up to a threshold

    The test succeeds at [p] exactly when [p <= t], wherever it is evaluated:
    the descent then ends at [t]. *)

Section Descent.

Variables (test : Z -> outcome bool) (t : Z).

Lemma advance_spec (stride : Z) :
  1 <= stride ->
  t + stride <= 2147483647 ->
  (forall p, 0 < p <= t + stride -> test p = Ret (p <=? t)) ->
  forall fuel pos,
    0 <= pos <= t ->
    (Z.to_nat (t - pos) < fuel)%nat ->
    exists pos', advance fuel test pos stride = Ret pos' /\
                 pos <= pos' <= t /\ t < pos' + stride.
Proof.
  intros Hs Hmax Htest.
  induction fuel as [|fuel IH]; intros pos Hpos Hfuel; [lia|].
  simpl. rewrite add_ret by lia. simpl.
  rewrite Htest by lia. simpl.
  destruct (pos + stride <=? t) eqn:Hle.
  - apply Z.leb_le in Hle.
    destruct (IH (pos + stride)) as [pos' [Hrun Hpos']]; try lia.
    exists pos'. split; [exact Hrun | lia].
  - apply Z.leb_gt in Hle. exists pos. split; [reflexivity | lia].
Qed.

Lemma stride_for_spec (inner : nat) :
  (Z.to_nat t < inner)%nat ->
  forall outer stride pos,
    0 <= stride < 2 ^ Z.of_nat outer ->
    0 <= pos <= t ->
    (stride = 0 -> pos = t) ->
    t + stride <= 2147483647 ->
    (forall p, 0 < p <= t + stride -> test p = Ret (p <=? t)) ->
    stride_for outer (advance inner test) pos stride = Ret t.
Proof.
  intros Hinner.
  induction outer as [|outer IH]; intros stride pos Hs Hpos Hzero Hmax Htest.
  - simpl in Hs. assert (stride = 0) by lia. subst stride.
    simpl. f_equal. auto.
  - rewrite Nat2Z.inj_succ, Z.pow_succ_r in Hs by lia.
    simpl. destruct (1 <=? stride) eqn:Hone.
    + apply Z.leb_le in Hone.
      destruct (advance_spec stride Hone Hmax Htest inner pos Hpos)
        as [pos' [Hrun Hpos']]; [lia|].
      rewrite Hrun. simpl.
      rewrite Z.quot_div_nonneg by lia.
      assert (Hhalf : 2 * (stride / 2) <= stride < 2 * (stride / 2) + 2).
      { pose proof (Z.div_mod stride 2 ltac:(lia)).
        pose proof (Z.mod_pos_bound stride 2 ltac:(lia)). lia. }
      apply IH; try lia.
      intros p Hp. apply Htest. lia.
    + apply Z.leb_gt in Hone. f_equal. apply Hzero. lia.
Qed.

Lemma descend_spec (fuel : nat) (sz : Z) :
  (32 <= fuel)%nat ->
  (Z.to_nat t < fuel)%nat ->
  0 <= t ->
  0 <= sz <= 2147483647 ->
  (sz <= 1 -> t = 0) ->
  t + sz / 2 <= 2147483647 ->
  (forall p, 0 < p <= t + sz / 2 -> test p = Ret (p <=? t)) ->
  descend fuel test sz = Ret t.
Proof.
  intros H32 Hfuel Ht Hsz Hone Hmax Htest. unfold descend.
  rewrite Z.quot_div_nonneg by lia.
  assert (Hhalf : 2 * (sz / 2) <= sz < 2 * (sz / 2) + 2).
  { pose proof (Z.div_mod sz 2 ltac:(lia)).
    pose proof (Z.mod_pos_bound sz 2 ltac:(lia)). lia. }
  apply stride_for_spec; try lia; try assumption.
  split; [lia|].
  apply Z.lt_le_trans with (2 ^ 32); [change (2 ^ 32) with 4294967296; lia|].
  apply Z.pow_le_mono_r; lia.
Qed.

End Descent.

(** A test that, once it fails, keeps failing has a threshold. *)
Lemma threshold_exists (P : Z -> bool) (n : nat) :
  (forall p q, 0 < p <= q -> q < Z.of_nat n -> P q = true -> P p = true) ->
  exists t, 0 <= t /\ (t < Z.of_nat n \/ t = 0) /\
            forall p, 0 < p < Z.of_nat n -> P p = (p <=? t).
Proof.
  induction n as [|m IH]; intros Hanti.
  - exists 0. split; [lia|]. split; [lia|]. intros p Hp. lia.
  - destruct IH as [t [Ht0 [Htm Ht]]].
    { intros p q Hpq Hq. apply Hanti; lia. }
    destruct (Z.eq_dec (Z.of_nat m) 0) as [Hm0 | Hm0].
    + exists 0. split; [lia|]. split; [lia|]. intros p Hp. lia.
    + destruct (P (Z.of_nat m)) eqn:Hlast.
      * exists (Z.of_nat m). split; [lia|]. split; [lia|].
        intros p Hp. replace (p <=? Z.of_nat m) with true
          by (symmetry; apply Z.leb_le; lia).
        apply (Hanti p (Z.of_nat m)); [lia | lia | exact Hlast].
      * exists t. split; [lia|]. split; [lia|].
        intros p Hp. destruct (Z.eq_dec p (Z.of_nat m)) as [-> | Hne].
        -- rewrite Hlast. symmetry. apply Z.leb_gt. lia.
        -- apply Ht. lia.
Qed.

(** ** binary_stride on non-empty arrays whose positions cannot overflow *)

Section BinaryStride.

Variables (a : array) (needle : Z).
Hypothesis Hsorted : sorted a.
Hypothesis Hnonempty : 1 <= len a.
Hypothesis Hlen : len a <= 2 ^ 30.

(** The descent stops on the last element that is at most the needle, or on
    index 0 when there is none. *)
Lemma binary_stride_descent :
  exists t, descend (budget a) (stride_test a (len a) needle) (len a) = Ret t /\
    0 <= t < len a /\
    (forall j, 0 < j < len a -> (elt a j <= needle <-> j <= t)).
Proof.
  change (2 ^ 30) with 1073741824 in Hlen.
  destruct (threshold_exists (fun p => elt a p <=? needle) (Z.to_nat (len a)))
    as [t [Ht0 [Htn Ht]]].
  { intros p q Hpq Hq Hle. rewrite Z2Nat.id in Hq by lia.
    apply Z.leb_le in Hle. apply Z.leb_le.
    pose proof (Hsorted p q ltac:(lia) ltac:(lia) Hq). lia. }
  rewrite Z2Nat.id in Htn, Ht by lia.
  exists t. split; [| split; [lia|]].
  - assert (Hhalf : 2 * (len a / 2) <= len a).
    { pose proof (Z.div_mod (len a) 2 ltac:(lia)).
      pose proof (Z.mod_pos_bound (len a) 2 ltac:(lia)). lia. }
    apply descend_spec; unfold budget; try lia.
    intros p Hp. unfold stride_test.
    destruct (p <? len a) eqn:Hlt.
    + apply Z.ltb_lt in Hlt. rewrite read_ret by lia. simpl.
      f_equal. apply Ht. lia.
    + apply Z.ltb_ge in Hlt. f_equal. symmetry. apply Z.leb_gt. lia.
  - intros j Hj. rewrite <- Z.leb_le, (Ht j Hj). apply Z.leb_le.
Qed.

(** On a sorted array of 1 to 2^30 elements, [binary_stride] returns the
    greatest index of the needle when it occurs and -1 when it does not. *)
Theorem binary_stride_correct :
  exists i, binary_stride a (len a) needle = Ret i /\
    ((0 <= i < len a /\ elt a i = needle /\
      forall j, 0 <= j < len a -> elt a j = needle -> j <= i) \/
     (i = -1 /\ ~ occurs a needle)).
Proof.
  destruct binary_stride_descent as [t [Hrun [Ht Hthr]]].
  unfold binary_stride, binary_stride_fuel. rewrite Hrun. simpl.
  rewrite read_ret by lia. simpl.
  assert (Hbelow : forall j, 0 <= j < len a -> elt a j = needle -> j <= t).
  { intros j Hj Hv. destruct (Z.eq_dec j 0) as [-> | Hj0]; [lia|].
    apply Hthr; lia. }
  destruct (elt a t =? needle) eqn:Heq.
  - apply Z.eqb_eq in Heq. exists t. split; [reflexivity|]. left. auto.
  - apply Z.eqb_neq in Heq. exists (-1). split; [reflexivity|]. right.
    split; [reflexivity|]. intros [j [Hj Hv]]. apply Heq.
    pose proof (Hbelow j Hj Hv) as Hjt.
    pose proof (Hsorted j t ltac:(lia) Hjt ltac:(lia)) as Hle.
    destruct (Z.eq_dec t 0) as [Ht0 | Ht0].
    + assert (j = 0) by lia. congruence.
    + assert (elt a t <= needle) by (apply Hthr; lia). lia.
Qed.

(** On such arrays the two searches give the same verdict, and an index
    returned by either holds the needle. *)
Theorem search_stride_agree :
  exists i j,
    binary_search a (len a) needle = Ret i /\
    binary_stride a (len a) needle = Ret j /\
    (i = -1 <-> j = -1) /\
    (i <> -1 -> 0 <= i < len a /\ elt a i = needle) /\
    (j <> -1 -> 0 <= j < len a /\ elt a j = needle).
Proof.
  destruct (binary_search_correct a needle Hsorted Hlen ltac:(lia))
    as [i [Hi Hsi]].
  destruct binary_stride_correct as [j [Hj Hsj]].
  exists i, j. split; [exact Hi|]. split; [exact Hj|].
  destruct Hsi as [[Hin Hv] | [Hm Hno]];
    destruct Hsj as [[Hjn [Hjv _]] | [Hjm Hjno]].
  - repeat split; try lia; assumption.
  - exfalso. apply Hjno. exists i. auto.
  - exfalso. apply Hno. exists j. auto.
  - repeat split; try lia.
Qed.

End BinaryStride.

(** ** What a finished descent tells about the position it returns *)

Section DescentInvariant.

Variable test : Z -> outcome bool.

(** A position the loops moved to passed the test. *)
Lemma advance_inv (fuel : nat) :
  forall pos stride pos',
    advance fuel test pos stride = Ret pos' ->
    pos' = pos \/ test pos' = Ret true.
Proof.
  induction fuel as [|fuel IH]; intros pos stride pos' H; [discriminate|].
  simpl in H. destruct (add pos stride) as [p| |]; simpl in H; try discriminate.
  destruct (test p) as [[|]| |] eqn:Hp; simpl in H; try discriminate.
  - destruct (IH _ _ _ H) as [-> | Ht]; right; assumption.
  - left. congruence.
Qed.

Lemma stride_for_inv (inner outer : nat) :
  forall pos stride pos',
    stride_for outer (advance inner test) pos stride = Ret pos' ->
    pos' = pos \/ test pos' = Ret true.
Proof.
  induction outer as [|outer IH]; intros pos stride pos' H; simpl in H.
  - destruct (1 <=? stride); [discriminate | left; congruence].
  - destruct (1 <=? stride); [| left; congruence].
    destruct (advance inner test pos stride) as [q| |] eqn:Hq;
      simpl in H; try discriminate.
    destruct (IH _ _ _ H) as [-> | Ht]; [| right; exact Ht].
    destruct (advance_inv _ _ _ _ Hq) as [-> | Ht]; [left | right]; auto.
Qed.

End DescentInvariant.

(** ** The fuel of the entry points is never exhausted *)

Lemma in_range_inv (z : Z) :
  Int.in_range z = true -> -2147483648 <= z <= 2147483647.
Proof.
  unfold Int.in_range, Int.min_int, Int.max_int.
  change (2 ^ 31) with 2147483648.
  intros H. apply andb_true_iff in H. destruct H as [Hlo Hhi].
  apply Z.leb_le in Hlo. apply Z.leb_le in Hhi. lia.
Qed.

Lemma add_inv (x y p : Z) :
  add x y = Ret p -> p = x + y /\ -2147483648 <= p <= 2147483647.
Proof.
  unfold add. destruct (Int.in_range (x + y)) eqn:Hr; [|discriminate].
  apply in_range_inv in Hr. intros H. inversion H. subst p. lia.
Qed.

Lemma sub_inv (x y p : Z) :
  sub x y = Ret p -> p = x - y /\ -2147483648 <= p <= 2147483647.
Proof.
  unfold sub. destruct (Int.in_range (x - y)) eqn:Hr; [|discriminate].
  apply in_range_inv in Hr. intros H. inversion H. subst p. lia.
Qed.

Lemma add_fuel (x y : Z) : add x y <> OutOfFuel.
Proof. unfold add. destruct (Int.in_range (x + y)); discriminate. Qed.

Lemma sub_fuel (x y : Z) : sub x y <> OutOfFuel.
Proof. unfold sub. destruct (Int.in_range (x - y)); discriminate. Qed.

Lemma read_fuel (a : array) (i : Z) : read a i <> OutOfFuel.
Proof. unfold read. destruct ((0 <=? i) && (i <? len a)); discriminate. Qed.

Lemma midpoint_fuel (l r : Z) : midpoint l r <> OutOfFuel.
Proof.
  unfold midpoint, add. destruct (Int.in_range (l + r)); discriminate.
Qed.

(** Closes the branches in which an operation that uses no fuel is assumed
    to have run out of it. *)
Ltac no_fuel :=
  match goal with
  | H : add _ _ = OutOfFuel |- _ => exfalso; exact (add_fuel _ _ H)
  | H : sub _ _ = OutOfFuel |- _ => exfalso; exact (sub_fuel _ _ H)
  | H : read _ _ = OutOfFuel |- _ => exfalso; exact (read_fuel _ _ H)
  | H : midpoint _ _ = OutOfFuel |- _ => exfalso; exact (midpoint_fuel _ _ H)
  end.

Lemma midpoint_inv (l r mid : Z) :
  midpoint l r = Ret mid -> mid = (l + r) / 2.
Proof.
  unfold midpoint. destruct (add l r) as [s| |] eqn:Hs; simpl; try discriminate.
  intros H. apply add_inv in Hs. destruct Hs as [-> _].
  inversion H. now rewrite Z.shiftr_div_pow2 by lia.
Qed.

Lemma bs_loop_halts (a : array) (needle : Z) (fuel : nat) :
  forall l r,
    r - l + 1 < 2 ^ Z.of_nat fuel ->
    bs_loop fuel a needle l r <> OutOfFuel.
Proof.
  induction fuel as [|fuel IH]; intros l r Hsize.
  - simpl in *. destruct (l <=? r) eqn:Hlr; [|discriminate].
    apply Z.leb_le in Hlr. lia.
  - rewrite Nat2Z.inj_succ, Z.pow_succ_r in Hsize by lia.
    simpl. destruct (l <=? r) eqn:Hlr; [|discriminate].
    apply Z.leb_le in Hlr.
    destruct (midpoint l r) as [mid| |] eqn:Hmid; simpl; try discriminate;
      try no_fuel.
    apply midpoint_inv in Hmid.
    assert (Hhalf : 2 * mid <= l + r < 2 * mid + 2).
    { subst mid. pose proof (Z.div_mod (l + r) 2 ltac:(lia)).
      pose proof (Z.mod_pos_bound (l + r) 2 ltac:(lia)). lia. }
    destruct (read a mid) as [v| |] eqn:Hv; simpl; try discriminate;
      try no_fuel.
    destruct (v =? needle); [discriminate|].
    destruct (v <? needle).
    + destruct (add mid 1) as [l'| |] eqn:Hl'; simpl; try discriminate;
        try no_fuel.
      apply add_inv in Hl'. apply IH. lia.
    + destruct (sub mid 1) as [r'| |] eqn:Hr'; simpl; try discriminate;
        try no_fuel.
      apply sub_inv in Hr'. apply IH. lia.
Qed.

(** [binary_search] stops on every input: it returns or it faults. *)
Theorem binary_search_halts (a : array) (sz needle : Z) :
  binary_search a sz needle <> OutOfFuel.
Proof.
  unfold binary_search.
  destruct (sub sz 1) as [r| |] eqn:Hr; cbn [bind]; try discriminate;
    try no_fuel.
  apply sub_inv in Hr. apply bs_loop_halts.
  change (2 ^ Z.of_nat 32) with 4294967296. lia.
Qed.

Section Halting.

Variables (test : Z -> outcome bool) (bound : Z).
Hypothesis Htotal : forall p, test p <> OutOfFuel.
Hypothesis Hbound : forall p, test p = Ret true -> p < bound.

Lemma advance_halts (stride : Z) :
  1 <= stride ->
  forall fuel pos,
    (Z.to_nat (bound - pos) < fuel)%nat ->
    advance fuel test pos stride <> OutOfFuel.
Proof.
  intros Hs. induction fuel as [|fuel IH]; intros pos Hfuel; [lia|].
  simpl. destruct (add pos stride) as [p| |] eqn:Hp; simpl; try discriminate;
    try no_fuel.
  apply add_inv in Hp.
  destruct (test p) as [[|]| |] eqn:Htest; simpl; try discriminate.
  - apply Hbound in Htest. apply IH. lia.
  - apply Htotal in Htest. contradiction.
Qed.

Lemma advance_ge (stride : Z) :
  1 <= stride ->
  forall fuel pos pos',
    advance fuel test pos stride = Ret pos' -> pos <= pos'.
Proof.
  intros Hs. induction fuel as [|fuel IH]; intros pos pos' H; [discriminate|].
  simpl in H. destruct (add pos stride) as [p| |] eqn:Hp; simpl in H;
    try discriminate.
  apply add_inv in Hp.
  destruct (test p) as [[|]| |]; simpl in H; try discriminate.
  - apply IH in H. lia.
  - inversion H. lia.
Qed.

Lemma stride_for_halts (inner : nat) :
  (Z.to_nat bound < inner)%nat ->
  forall outer stride pos,
    stride < 2 ^ Z.of_nat outer ->
    0 <= pos ->
    stride_for outer (advance inner test) pos stride <> OutOfFuel.
Proof.
  intros Hinner. induction outer as [|outer IH]; intros stride pos Hs Hpos.
  - simpl in *. destruct (1 <=? stride) eqn:Hone; [|discriminate].
    apply Z.leb_le in Hone. lia.
  - rewrite Nat2Z.inj_succ, Z.pow_succ_r in Hs by lia.
    simpl. destruct (1 <=? stride) eqn:Hone; [|discriminate].
    apply Z.leb_le in Hone.
    destruct (advance inner test pos stride) as [pos'| |] eqn:Hrun; simpl;
      try discriminate.
    + apply advance_ge in Hrun; [|exact Hone].
      apply IH; [|lia].
      rewrite Z.quot_div_nonneg by lia.
      pose proof (Z.div_mod stride 2 ltac:(lia)).
      pose proof (Z.mod_pos_bound stride 2 ltac:(lia)). lia.
    + exfalso. revert Hrun. apply advance_halts; [exact Hone | lia].
Qed.

Lemma descend_halts (fuel : nat) (sz : Z) :
  (32 <= fuel)%nat ->
  (Z.to_nat bound < fuel)%nat ->
  descend fuel test sz <> OutOfFuel.
Proof.
  intros H32 Hfuel. unfold descend.
  destruct (Z_lt_ge_dec (Z.quot sz 2) 2147483648) as [Hsmall | Hbig].
  - apply stride_for_halts; try lia.
    apply Z.lt_le_trans with (2 ^ 32); [change (2 ^ 32) with 4294967296; lia|].
    apply Z.pow_le_mono_r; lia.
  - destruct fuel as [|fuel]; [lia|].
    simpl. replace (1 <=? Z.quot sz 2) with true
      by (symmetry; apply Z.leb_le; lia).
    unfold add. rewrite in_range_false by lia. simpl. discriminate.
Qed.

End Halting.

Lemma stride_test_total (a : array) (sz needle p : Z) :
  stride_test a sz needle p <> OutOfFuel.
Proof.
  unfold stride_test, read.
  destruct (p <? sz); [|discriminate].
  destruct ((0 <=? p) && (p <? len a)); simpl; discriminate.
Qed.

Lemma stride_test_bound (a : array) (sz needle p : Z) :
  stride_test a sz needle p = Ret true -> p < len a.
Proof.
  unfold stride_test. destruct (p <? sz); [|discriminate].
  destruct (read a p) as [v| |] eqn:Hv; simpl; try discriminate.
  apply read_inv in Hv. lia.
Qed.

Lemma crossover_test_total (fn : Z -> Z) (a : array) (p : Z) :
  crossover_test fn a p <> OutOfFuel.
Proof.
  unfold crossover_test, read.
  destruct ((0 <=? p) && (p <? len a)); simpl; discriminate.
Qed.

Lemma crossover_test_true (fn : Z -> Z) (a : array) (p : Z) :
  crossover_test fn a p = Ret true <-> 0 <= p < len a /\ fn (elt a p) <= 0.
Proof.
  unfold crossover_test. split.
  - destruct (read a p) as [v| |] eqn:Hv; simpl; try discriminate.
    apply read_inv in Hv. destruct Hv as [Hp ->]. intros H.
    split; [exact Hp|]. apply Z.leb_le. congruence.
  - intros [Hp Hle]. rewrite read_ret by exact Hp. simpl.
    f_equal. apply Z.leb_le. exact Hle.
Qed.

(** [binary_stride] stops on every input: it returns or it faults. *)
Theorem binary_stride_halts (a : array) (sz needle : Z) :
  binary_stride a sz needle <> OutOfFuel.
Proof.
  unfold binary_stride, binary_stride_fuel.
  destruct (descend (budget a) (stride_test a sz needle) sz) as [pos| |] eqn:Hrun;
    simpl; try discriminate.
  - destruct (read a pos) as [v| |] eqn:Hv; simpl; try discriminate;
      try no_fuel.
    destruct (v =? needle); discriminate.
  - exfalso. revert Hrun. apply descend_halts with (bound := len a).
    + apply stride_test_total.
    + apply stride_test_bound.
    + unfold budget. lia.
    + unfold budget. lia.
Qed.

(** [find_crossover_point] stops on every input, by returning or by the
    fault that ends its walk. *)
Theorem find_crossover_point_halts (fn : Z -> Z) (a : array) (sz : Z) :
  find_crossover_point fn a sz <> OutOfFuel.
Proof.
  unfold find_crossover_point, find_crossover_point_fuel.
  apply descend_halts with (bound := len a).
  - apply crossover_test_total.
  - intros p Hp. apply crossover_test_true in Hp. lia.
  - unfold budget. lia.
  - unfold budget. lia.
Qed.

(** ** The stride descent of find_crossover_point *)

Section CrossoverDescent.

Variables (fn : Z -> Z) (a : array).

(** The caller passes the size [sz]; the function is non-positive below the
    threshold [k] and positive from [k] to the end of the array, which
    extends far enough for every probe: the descent ends at the last
    non-positive index. *)
Lemma crossover_descent (sz k : Z) :
  0 <= sz <= 2147483647 ->
  0 <= k ->
  (sz <= 1 -> k <= 1) ->
  Z.max 1 k + sz / 2 <= len a <= 2147483647 ->
  (forall i, 0 <= i < k -> fn (elt a i) <= 0) ->
  (forall i, k <= i < len a -> 0 < fn (elt a i)) ->
  find_crossover_point fn a sz = Ret (Z.max 0 (k - 1)).
Proof.
  intros Hsz Hk Hone Hroom Hlow Hhigh.
  assert (Hhalf : 0 <= sz / 2) by (apply Z.div_pos; lia).
  unfold find_crossover_point, find_crossover_point_fuel.
  apply descend_spec; unfold budget; try lia.
  intros p Hp. unfold crossover_test.
  rewrite read_ret by lia. simpl. f_equal.
  destruct (p <=? Z.max 0 (k - 1)) eqn:Hpt.
  - apply Z.leb_le in Hpt. apply Z.leb_le. apply Hlow. lia.
  - apply Z.leb_gt in Hpt. apply Z.leb_gt. apply Hhigh. lia.
Qed.

(** A loop whose test never fails does not return. *)
Lemma advance_stuck (test : Z -> outcome bool) :
  (forall p, test p <> Ret false) ->
  forall fuel pos stride r, advance fuel test pos stride <> Ret r.
Proof.
  intros Htest. induction fuel as [|fuel IH]; intros pos stride r;
    [discriminate|].
  simpl. destruct (add pos stride) as [p| |]; simpl; try discriminate.
  destruct (test p) as [[|]| |] eqn:Hp; simpl; try discriminate.
  - apply IH.
  - exfalso. exact (Htest p Hp).
Qed.

(** Where the function is positive nowhere in the array, a call with
    [sz >= 2] enters the inner loop and never returns from it. *)
Lemma crossover_nonpositive_never_returns (sz : Z) :
  2 <= sz ->
  (forall i, 0 <= i < len a -> fn (elt a i) <= 0) ->
  forall fuel r, find_crossover_point_fuel fn fuel a sz <> Ret r.
Proof.
  intros Hsz Hneg fuel r.
  unfold find_crossover_point_fuel, descend.
  assert (Hs : 1 <= Z.quot sz 2).
  { rewrite Z.quot_div_nonneg by lia. apply Z.div_le_lower_bound; lia. }
  destruct fuel as [|fuel]; simpl;
    (replace (1 <=? Z.quot sz 2) with true by (symmetry; apply Z.leb_le; lia));
    [discriminate|].
  destruct (add 0 (Z.quot sz 2)) as [p| |]; simpl; try discriminate.
  destruct (crossover_test fn a p) as [[|]| |] eqn:Hp; simpl; try discriminate.
  - destruct (advance fuel (crossover_test fn a) p (Z.quot sz 2)) as [q| |] eqn:Hq;
      simpl; try discriminate.
    exfalso. revert Hq. apply advance_stuck.
    intros i Hi. unfold crossover_test in Hi.
    destruct (read a i) as [v| |] eqn:Hv; simpl in Hi; try discriminate.
    apply read_inv in Hv. destruct Hv as [Hin ->].
    specialize (Hneg i Hin). apply Z.leb_le in Hneg. congruence.
  - exfalso. unfold crossover_test in Hp.
    destruct (read a p) as [v| |] eqn:Hv; simpl in Hp; try discriminate.
    apply read_inv in Hv. destruct Hv as [Hin ->].
    specialize (Hneg p Hin). apply Z.leb_le in Hneg. congruence.
Qed.

End CrossoverDescent.

(** ** Arrays written as lists *)

Lemma sorted_of_list (l : list Z) :
  StronglySorted Z.le l -> sorted (of_list l).
Proof.
  intros Hs.
  assert (Hnat : forall i j : nat,
             (i <= j)%nat -> (j < length l)%nat -> nth i l 0 <= nth j l 0).
  { induction Hs as [|x l Hs IH Hall]; intros i j Hij Hj; [simpl in Hj; lia|].
    destruct i as [|i]; destruct j as [|j]; simpl in *; try lia.
    - rewrite Forall_forall in Hall. apply Hall. apply nth_In. lia.
    - apply IH; lia. }
  intros i j Hi Hij Hj. simpl in *. apply Hnat; lia.
Qed.

Lemma occurs_of_list (l : list Z) (v : Z) :
  occurs (of_list l) v <-> In v l.
Proof.
  split.
  - intros [i [Hi Hv]]. simpl in *. subst v. apply nth_In. lia.
  - intros Hin. destruct (In_nth l v 0 Hin) as [n [Hn Hv]].
    exists (Z.of_nat n). simpl. rewrite Nat2Z.id. split; [lia | exact Hv].
Qed.

(** The two searches on sorted lists of at most 2^30 elements. *)
Corollary binary_search_list (l : list Z) (needle : Z) :
  StronglySorted Z.le l ->
  Z.of_nat (length l) <= 2 ^ 30 ->
  exists i, binary_search (of_list l) (Z.of_nat (length l)) needle = Ret i /\
    ((0 <= i /\ nth_error l (Z.to_nat i) = Some needle) \/
     (i = -1 /\ ~ In needle l)).
Proof.
  intros Hs Hlen.
  destruct (binary_search_correct (of_list l) needle (sorted_of_list l Hs) Hlen)
    as [i [Hi Hspec]]; [simpl; lia|].
  exists i. split; [exact Hi|].
  destruct Hspec as [[Hin Hv] | [Hm Hno]]; [left | right].
  - simpl in Hin, Hv. split; [lia|].
    rewrite <- Hv. apply nth_error_nth'. lia.
  - split; [exact Hm|]. now rewrite <- occurs_of_list.
Qed.

Corollary binary_stride_list (l : list Z) (needle : Z) :
  StronglySorted Z.le l ->
  l <> [] ->
  Z.of_nat (length l) <= 2 ^ 30 ->
  exists i, binary_stride (of_list l) (Z.of_nat (length l)) needle = Ret i /\
    ((0 <= i /\ nth_error l (Z.to_nat i) = Some needle /\
      forall j, nth_error l j = Some needle -> (j <= Z.to_nat i)%nat) \/
     (i = -1 /\ ~ In needle l)).
Proof.
  intros Hs Hne Hlen.
  assert (Hpos : 1 <= len (of_list l)).
  { destruct l; [contradiction | simpl; lia]. }
  destruct (binary_stride_correct (of_list l) needle (sorted_of_list l Hs) Hpos Hlen)
    as [i [Hi Hspec]].
  exists i. split; [exact Hi|].
  destruct Hspec as [[Hin [Hv Hmax]] | [Hm Hno]]; [left | right].
  - simpl in Hin, Hv. split; [lia|]. split.
    + rewrite <- Hv. apply nth_error_nth'. lia.
    + intros j Hj.
      assert (Hjl : (j < length l)%nat) by (apply nth_error_Some; congruence).
      specialize (Hmax (Z.of_nat j)). simpl in Hmax.
      rewrite Nat2Z.id in Hmax.
      assert (Z.of_nat j <= i); [|lia].
      apply Hmax; [lia|]. now apply nth_error_nth.
  - split; [exact Hm|]. now rewrite <- occurs_of_list.
Qed.

(** With [sz = 0] [binary_search] returns -1 before any read, whatever the
    array. *)
Lemma binary_search_empty (a : array) (needle : Z) :
  binary_search a 0 needle = Ret (-1).
Proof. reflexivity. Qed.

(** * The claims of the specification *)

(** ** The literal scenarios *)

(** C8.  On the arrays of the test program: [binary_search] and
    [binary_stride] find 4 at index 3 of [1..9]; [binary_stride] finds 4 at
    index 1 of [1,4,9], index 1 of [1,4], index 0 of [4,9] and index 0 of [4];
    it does not find 5 in [4]; it finds neither 14 nor 0 in [1..9], [1,4,9],
    [1,4] and [4,9]. *)
Theorem literal_scenarios :
  binary_search a1 9 4 = Ret 3 /\ binary_stride a1 9 4 = Ret 3 /\
  binary_stride a4 3 4 = Ret 1 /\
  binary_stride a5 2 4 = Ret 1 /\
  binary_stride a6 2 4 = Ret 0 /\
  binary_stride a3 1 4 = Ret 0 /\ binary_stride a3 1 5 = Ret (-1) /\
  (binary_stride a1 9 14 = Ret (-1) /\ binary_stride a4 3 14 = Ret (-1) /\
   binary_stride a5 2 14 = Ret (-1) /\ binary_stride a6 2 14 = Ret (-1)) /\
  (binary_stride a1 9 0 = Ret (-1) /\ binary_stride a4 3 0 = Ret (-1) /\
   binary_stride a5 2 0 = Ret (-1) /\ binary_stride a6 2 0 = Ret (-1)).
Proof. vm_compute. repeat split. Qed.

(** ** The empty array *)

(** C2.  On an array of no elements [binary_stride] skips its loops and then
    reads [a[0]] for the equality check: the run ends in that out-of-bounds
    read, whatever the needle, instead of returning -1. *)
Theorem binary_stride_empty_reads_a0 (contents : Z -> Z) (needle : Z) :
  binary_stride (mkArray 0 contents) 0 needle = Fault (OutOfBounds 0).
Proof. reflexivity. Qed.

(** C1.  On the empty array of the test program the two searches part:
    [binary_search] returns -1, [binary_stride] ends in the out-of-bounds
    read of [a[0]] and gives no verdict. *)
Theorem searches_differ_on_empty (needle : Z) :
  sorted a7 /\
  binary_search a7 0 needle = Ret (-1) /\
  binary_stride a7 0 needle = Fault (OutOfBounds 0).
Proof.
  split; [| split; reflexivity].
  intros i j Hi Hij Hj. simpl in Hj. lia.
Qed.

(** ** Arrays on which the positions overflow *)

(** C4.  On 2^31-1 zeros searched for 1 the first iteration computes
    [mid = 1073741823] from the bounds [0, 2147483646], reads 0 there and
    moves [l] to 1073741824; the next midpoint adds 1073741824 and
    2147483646, which overflows [int].  The wrapped sum halves to a negative
    index, where [l + (r - l) / 2] is 1610612735. *)
Theorem midpoint_overflows :
  sub 2147483647 1 = Ret 2147483646 /\
  midpoint 0 2147483646 = Ret 1073741823 /\
  read (zeros 2147483647) 1073741823 = Ret 0 /\
  add 1073741823 1 = Ret 1073741824 /\
  midpoint 1073741824 2147483646 = Fault Overflow /\
  Z.shiftr (Int.wrap (1073741824 + 2147483646)) 1 = -536870913 /\
  1073741824 + (2147483646 - 1073741824) / 2 = 1610612735 /\
  binary_search (zeros 2147483647) 2147483647 1 = Fault Overflow.
Proof. vm_compute. repeat split. Qed.

(** C7.  The array 0, 1, ..., 2^31-2 is sorted and holds 2147483646 at its
    last index, yet [binary_search] returns no index for it: the run ends in
    the overflow of its second midpoint. *)
Theorem binary_search_misses_on_large :
  sorted (iota 2147483647) /\
  occurs (iota 2147483647) 2147483646 /\
  binary_search (iota 2147483647) 2147483647 2147483646 = Fault Overflow.
Proof.
  split; [| split].
  - intros i j Hi Hij Hj. simpl. exact Hij.
  - exists 2147483646. simpl. lia.
  - vm_compute. reflexivity.
Qed.

Lemma binary_stride_large_fuel (fuel : nat) :
  (3 <= fuel)%nat ->
  binary_stride_fuel fuel (zeros 2147483647) 2147483647 0 = Fault Overflow.
Proof.
  intros H. destruct fuel as [|[|[|fuel]]]; try lia.
  vm_compute. reflexivity.
Qed.

(** C10.  The array of 2^31-1 zeros is sorted and holds 0, last at index
    2147483646.  [binary_stride] moves to 1073741823, then to 2147483646,
    and evaluates [pos+stride] once more: 2147483646 + 1073741823 overflows
    [int], and no index is returned. *)
Theorem binary_stride_overflows_on_large :
  sorted (zeros 2147483647) /\
  occurs (zeros 2147483647) 0 /\
  Z.quot 2147483647 2 = 1073741823 /\
  add 0 1073741823 = Ret 1073741823 /\
  add 1073741823 1073741823 = Ret 2147483646 /\
  add 2147483646 1073741823 = Fault Overflow /\
  binary_stride (zeros 2147483647) 2147483647 0 = Fault Overflow.
Proof.
  split; [| split; [| do 4 (split; [reflexivity|])]].
  - intros i j Hi Hij Hj. simpl. lia.
  - exists 0. simpl. lia.
  - apply binary_stride_large_fuel. unfold budget. lia.
Qed.

(** ** find_crossover_point *)

(** C6.  On [-1,-1,-1,1], where [fn] (the identity) is non-positive up to
    index 2 and positive at index 3, [find_crossover_point] moves to index 2
    with the stride 2 and evaluates [fn(a[4])]: nothing keeps [pos+stride]
    below [sz], where [binary_stride] tests [pos+stride < sz] first. *)
Theorem find_crossover_point_reads_past_end :
  let a := of_list [-1; -1; -1; 1] in
  crossover_test (fun x => x) a 2 = Ret true /\
  crossover_test (fun x => x) a 4 = Fault (OutOfBounds 4) /\
  stride_test a 4 1 4 = Ret false /\
  find_crossover_point (fun x => x) a 4 = Fault (OutOfBounds 4).
Proof. vm_compute. repeat split. Qed.

(** C9.  On [0,0], where [fn] (the identity) is nowhere positive, the inner
    loop of [find_crossover_point] is never left by its test: whatever the
    fuel, the run returns no position, and with the fuel of the entry point
    it ends in the read of [a[2]]. *)
Theorem find_crossover_point_never_returns :
  (forall fuel r,
     find_crossover_point_fuel (fun x => x) fuel (of_list [0; 0]) 2 <> Ret r) /\
  find_crossover_point (fun x => x) (of_list [0; 0]) 2 = Fault (OutOfBounds 2).
Proof.
  split; [| reflexivity].
  intros fuel r. destruct fuel as [|[|fuel]]; vm_compute; discriminate.
Qed.

(** The claim of C5 as it is written fails: at [pos = 0] and [stride = 1] of
    [1,1,1] the function is positive at [pos+stride], and the loop stays at 0
    where a loop advancing on positive values would go on from 1. *)
Lemma advance_when_positive_refuted :
  ~ (forall (fn : Z -> Z) (a : array) (fuel : nat) (pos stride : Z),
       0 <= pos -> 1 <= stride -> pos + stride < len a ->
       0 < fn (elt a (pos + stride)) ->
       advance (S fuel) (crossover_test fn a) pos stride =
       advance fuel (crossover_test fn a) (pos + stride) stride).
Proof.
  intros H.
  specialize (H (fun x => x) (of_list [1; 1; 1]) 1%nat 0 1).
  vm_compute in H.
  assert (Hne : Ret 0 = @Ret Z 1) by (apply H; congruence).
  discriminate Hne.
Qed.

(** C5, amended.  The inner loop of [find_crossover_point] goes on from
    [pos+stride] exactly when [fn(a[pos+stride]) <= 0] and stops at [pos]
    otherwise; the entry point returns the position the loops end at as it
    is: either 0, or an index the loops moved to, so one at which the
    function is non-positive. *)
Theorem crossover_advances_while_nonpositive (fn : Z -> Z) (a : array) :
  (forall fuel pos stride,
     advance (S fuel) (crossover_test fn a) pos stride =
     (p <- add pos stride ;;
      v <- read a p ;;
      if fn v <=? 0 then advance fuel (crossover_test fn a) p stride
      else Ret pos)) /\
  (forall fuel sz,
     find_crossover_point_fuel fn fuel a sz =
     stride_for fuel (advance fuel (crossover_test fn a)) 0 (Z.quot sz 2)) /\
  (forall sz r,
     find_crossover_point fn a sz = Ret r ->
     r = 0 \/ (0 <= r < len a /\ fn (elt a r) <= 0)).
Proof.
  split; [| split].
  - intros fuel pos stride. simpl.
    destruct (add pos stride) as [p| |]; simpl; try reflexivity.
    unfold crossover_test.
    destruct (read a p) as [v| |]; simpl; reflexivity.
  - reflexivity.
  - intros sz r Hr.
    unfold find_crossover_point, find_crossover_point_fuel, descend in Hr.
    apply stride_for_inv in Hr. destruct Hr as [-> | Hr]; [left; reflexivity|].
    right. apply crossover_test_true. exact Hr.
Qed.

Lemma crossover_advances_while_nonpositive_witness :
  find_crossover_point (fun x => x) (of_list [-1; -1; 1; 1]) 4 = Ret 1 /\
  (1 = 0 \/ (0 <= 1 < 4 /\ -1 <= 0)).
Proof.
  split.
  - vm_compute. reflexivity.
  - apply (proj2 (proj2 (crossover_advances_while_nonpositive
                           (fun x => x) (of_list [-1; -1; 1; 1]))) 4 1).
    vm_compute. reflexivity.
Defined.

(** The claim of C3 as it is written fails: on [1,1] the identity is positive
    on [0, 2) and the threshold is 2, but the function returns 0. *)
Lemma crossover_threshold_refuted :
  ~ (forall (fn : Z -> Z) (a : array) (k : Z),
       1 <= len a -> 0 <= k <= len a ->
       (forall i, 0 <= i < k -> 0 < fn (elt a i)) ->
       (forall i, k <= i < len a -> fn (elt a i) <= 0) ->
       find_crossover_point fn a (len a) = Ret k).
Proof.
  intros H.
  specialize (H (fun x => x) (of_list [1; 1]) 2).
  assert (Hne : find_crossover_point (fun x => x) (of_list [1; 1])
                  (len (of_list [1; 1])) = Ret 2).
  { apply H.
    - simpl. lia.
    - simpl. lia.
    - intros i Hi. assert (Hi' : i = 0 \/ i = 1) by lia.
      destruct Hi' as [-> | ->]; simpl; lia.
    - intros i Hi. simpl in Hi. lia. }
  vm_compute in Hne. discriminate Hne.
Qed.

(** C3, amended.  Let [fn] be non-positive on the indices [[0, k)] of the
    array and positive on [[k, n)], with the threshold [k] low enough for
    every probe [pos+stride] to stay inside the array: [k + n/2 <= n].  Then
    [find_crossover_point] returns [k - 1], the last index at which the
    function is non-positive (and 0 when there is none). *)
Theorem find_crossover_point_last_nonpositive
    (fn : Z -> Z) (a : array) (k : Z) :
  1 <= len a <= Int.max_int ->
  0 <= k ->
  k + len a / 2 <= len a ->
  (forall i, 0 <= i < k -> fn (elt a i) <= 0) ->
  (forall i, k <= i < len a -> 0 < fn (elt a i)) ->
  find_crossover_point fn a (len a) = Ret (Z.max 0 (k - 1)).
Proof.
  unfold Int.max_int. change (2 ^ 31 - 1) with 2147483647.
  intros Hlen Hk Hroom Hlow Hhigh.
  assert (Hhalf : 2 * (len a / 2) <= len a < 2 * (len a / 2) + 2).
  { pose proof (Z.div_mod (len a) 2 ltac:(lia)).
    pose proof (Z.mod_pos_bound (len a) 2 ltac:(lia)). lia. }
  apply crossover_descent; try assumption; lia.
Qed.

Lemma find_crossover_point_last_nonpositive_witness :
  find_crossover_point (fun x => x) (of_list [-3; -2; 0; 5; 8; 9]) 6 = Ret 2.
Proof.
  apply (find_crossover_point_last_nonpositive
           (fun x => x) (of_list [-3; -2; 0; 5; 8; 9]) 3).
  - vm_compute. split; discriminate.
  - lia.
  - vm_compute. discriminate.
  - intros i Hi.
    assert (Hi' : i = 0 \/ i = 1 \/ i = 2) by lia.
    destruct Hi' as [-> | [-> | ->]]; vm_compute; discriminate.
  - intros i Hi. simpl in Hi.
    assert (Hi' : i = 3 \/ i = 4 \/ i = 5) by lia.
    destruct Hi' as [-> | [-> | ->]]; vm_compute; reflexivity.
Defined.

(** * Further properties of the three functions *)

Lemma bind_ret_inv {A B : Type} (m : outcome A) (k : A -> outcome B) (y : B) :
  bind m k = Ret y -> exists x, m = Ret x /\ k x = Ret y.
Proof.
  destruct m as [x| |]; simpl; intros H; try discriminate.
  exists x. split; [reflexivity | exact H].
Qed.

Lemma bind_ext {A B : Type} (m : outcome A) (k k' : A -> outcome B) :
  (forall x, m = Ret x -> k x = k' x) -> bind m k = bind m k'.
Proof.
  intros H. destruct m as [x| |]; simpl; [apply H|..]; reflexivity.
Qed.

(** ** binary_search on arbitrary input *)

Lemma bs_loop_exit (fuel : nat) (a : array) (needle l r : Z) :
  r < l -> bs_loop fuel a needle l r = Ret (-1).
Proof.
  intros H. apply Z.leb_gt in H. destruct fuel; simpl; now rewrite H.
Qed.

Lemma midpoint_between (l r mid : Z) :
  l <= r -> midpoint l r = Ret mid -> l <= mid <= r.
Proof.
  intros Hlr Hmid. apply midpoint_inv in Hmid. subst mid.
  split; [apply Z.div_le_lower_bound | apply Z.div_le_upper_bound]; lia.
Qed.

Lemma bs_loop_sound (a : array) (needle : Z) (fuel : nat) :
  forall l r i,
    bs_loop fuel a needle l r = Ret i ->
    i = -1 \/ (l <= i <= r /\ 0 <= i < len a /\ elt a i = needle).
Proof.
  induction fuel as [|fuel IH]; intros l r i H; simpl in H.
  - destruct (l <=? r); [discriminate | left; congruence].
  - destruct (l <=? r) eqn:Hlr; [| left; congruence].
    apply Z.leb_le in Hlr.
    destruct (midpoint l r) as [mid| |] eqn:Hmid; simpl in H; try discriminate.
    pose proof (midpoint_between l r mid Hlr Hmid) as Hb.
    destruct (read a mid) as [v| |] eqn:Hv; simpl in H; try discriminate.
    apply read_inv in Hv. destruct Hv as [Hin ->].
    destruct (elt a mid =? needle) eqn:Heq.
    + apply Z.eqb_eq in Heq. inversion H. subst i. right. lia.
    + destruct (elt a mid <? needle).
      * destruct (add mid 1) as [l'| |] eqn:Hl'; simpl in H; try discriminate.
        apply add_inv in Hl'. apply IH in H. lia.
      * destruct (sub mid 1) as [r'| |] eqn:Hr'; simpl in H; try discriminate.
        apply sub_inv in Hr'. apply IH in H. lia.
Qed.

(** X1.  Whatever the array (sorted or not) and whatever [sz],
    [binary_search] returns only -1 or an index below [sz], inside the array,
    that holds the needle. *)
Theorem binary_search_sound (a : array) (sz needle i : Z) :
  binary_search a sz needle = Ret i ->
  i = -1 \/ (0 <= i < sz /\ i < len a /\ elt a i = needle).
Proof.
  unfold binary_search. intros H.
  apply bind_ret_inv in H. destruct H as [r [Hr H]].
  apply sub_inv in Hr. apply bs_loop_sound in H. lia.
Qed.

Lemma binary_search_sound_witness :
  -1 = -1 \/ (0 <= -1 < 4 /\ -1 < len (of_list [9; 1; 7; 3]) /\
              elt (of_list [9; 1; 7; 3]) (-1) = 9).
Proof.
  apply (binary_search_sound (of_list [9; 1; 7; 3]) 4 9 (-1)).
  vm_compute. reflexivity.
Defined.

Lemma bs_loop_safe (a : array) (needle : Z) (fuel : nat) :
  forall l r,
    0 <= l -> r < len a -> r < 1073741824 ->
    r - l + 1 < 2 ^ Z.of_nat fuel ->
    exists i, bs_loop fuel a needle l r = Ret i.
Proof.
  induction fuel as [|fuel IH]; intros l r Hl Hr Hbig Hsize.
  - simpl in Hsize. exists (-1). apply bs_loop_exit. lia.
  - rewrite Nat2Z.inj_succ, Z.pow_succ_r in Hsize by lia.
    destruct (Z_lt_ge_dec r l) as [Hlr | Hlr].
    { exists (-1). apply bs_loop_exit. exact Hlr. }
    simpl. replace (l <=? r) with true by (symmetry; apply Z.leb_le; lia).
    rewrite midpoint_ret by lia. simpl.
    assert (Hhalf : 2 * ((l + r) / 2) <= l + r < 2 * ((l + r) / 2) + 2).
    { pose proof (Z.div_mod (l + r) 2 ltac:(lia)).
      pose proof (Z.mod_pos_bound (l + r) 2 ltac:(lia)). lia. }
    set (mid := (l + r) / 2) in *.
    rewrite read_ret by lia. simpl.
    destruct (elt a mid =? needle); [exists mid; reflexivity|].
    destruct (elt a mid <? needle).
    + rewrite add_ret by lia. simpl. apply IH; lia.
    + rewrite sub_ret by lia. simpl. apply IH; lia.
Qed.

(** X2.  When [sz] does not exceed the number of elements nor 2^30,
    [binary_search] returns a value on every array, sorted or not: no read
    leaves the array and no sum overflows. *)
Theorem binary_search_safe (a : array) (sz needle : Z) :
  0 <= sz <= len a ->
  sz <= 2 ^ 30 ->
  exists i, binary_search a sz needle = Ret i.
Proof.
  change (2 ^ 30) with 1073741824. intros Hsz Hbig.
  unfold binary_search. rewrite sub_ret by lia. cbn [bind].
  assert (Hsize : sz - 1 - 0 + 1 < 2 ^ Z.of_nat 32).
  { change (2 ^ Z.of_nat 32) with 4294967296. lia. }
  apply bs_loop_safe; [lia | lia | lia | exact Hsize].
Qed.

Lemma binary_search_safe_witness :
  exists i, binary_search (of_list [9; 1; 7; 3]) 4 5 = Ret i.
Proof.
  apply (binary_search_safe (of_list [9; 1; 7; 3]) 4 5).
  - vm_compute. split; discriminate.
  - vm_compute. discriminate.
Defined.

(** X4.  A size of zero or below (above [INT_MIN], where [sz - 1]
    overflows) makes [binary_search] return -1 at once, whatever the array:
    nothing is read. *)
Theorem binary_search_nonpositive_size (a : array) (sz needle : Z) :
  -2147483648 < sz <= 0 ->
  binary_search a sz needle = Ret (-1).
Proof.
  intros Hsz. unfold binary_search. rewrite sub_ret by lia. cbn [bind].
  apply bs_loop_exit. lia.
Qed.

Lemma binary_search_nonpositive_size_witness :
  binary_search a1 (-3) 4 = Ret (-1).
Proof.
  apply (binary_search_nonpositive_size a1 (-3) 4). lia.
Defined.

(** X5.  On [sz < 2^k] elements the loop of [binary_search] is over within
    [k] iterations, on every array, sorted or not: at most [k] elements are
    probed. *)
Theorem binary_search_logarithmic (a : array) (needle sz : Z) (k : nat) :
  sz < 2 ^ Z.of_nat k ->
  bs_loop k a needle 0 (sz - 1) <> OutOfFuel.
Proof.
  intros Hsz. apply bs_loop_halts. lia.
Qed.

Lemma binary_search_logarithmic_witness :
  bs_loop 4 a1 10 0 (9 - 1) <> OutOfFuel.
Proof.
  apply (binary_search_logarithmic a1 10 9 4). vm_compute. reflexivity.
Defined.

Lemma bs_loop_ext (a b : array) (needle sz : Z) (fuel : nat) :
  (forall i, 0 <= i < sz -> read a i = read b i) ->
  forall l r,
    0 <= l -> r < sz ->
    bs_loop fuel a needle l r = bs_loop fuel b needle l r.
Proof.
  intros Hagree. induction fuel as [|fuel IH]; intros l r Hl Hr; [reflexivity|].
  simpl. destruct (l <=? r) eqn:Hlr; [|reflexivity].
  apply Z.leb_le in Hlr.
  destruct (midpoint l r) as [mid| |] eqn:Hmid; simpl; try reflexivity.
  pose proof (midpoint_between l r mid Hlr Hmid) as Hb.
  rewrite <- (Hagree mid) by lia.
  destruct (read a mid) as [v| |]; simpl; try reflexivity.
  destruct (v =? needle); [reflexivity|].
  destruct (v <? needle).
  - destruct (add mid 1) as [l'| |] eqn:Hl'; simpl; try reflexivity.
    apply add_inv in Hl'. apply IH; lia.
  - destruct (sub mid 1) as [r'| |] eqn:Hr'; simpl; try reflexivity.
    apply sub_inv in Hr'. apply IH; lia.
Qed.

(** X6.  [binary_search] looks at the indices [[0, sz)] only: two arrays
    that read alike there give the same outcome, whatever they hold (or
    lack) elsewhere. *)
Theorem binary_search_prefix_only (a b : array) (sz needle : Z) :
  (forall i, 0 <= i < sz -> read a i = read b i) ->
  binary_search a sz needle = binary_search b sz needle.
Proof.
  intros Hagree. unfold binary_search.
  apply bind_ext. intros r Hr.
  apply sub_inv in Hr. apply (bs_loop_ext a b needle sz); [exact Hagree | lia | lia].
Qed.

Lemma binary_search_prefix_only_witness :
  binary_search (of_list [1; 4; 9; 0; 0]) 3 9 = binary_search a4 3 9.
Proof.
  apply (binary_search_prefix_only (of_list [1; 4; 9; 0; 0]) a4 3 9).
  intros i Hi. assert (Hi' : i = 0 \/ i = 1 \/ i = 2) by lia.
  destruct Hi' as [-> | [-> | ->]]; reflexivity.
Defined.

(** X3.  On a sorted list of at most 2^30 elements [binary_search] returns
    a value: an index of the needle when the list holds it, -1 when it does
    not. *)
Theorem binary_search_sorted_list (l : list Z) (needle : Z) :
  StronglySorted Z.le l ->
  Z.of_nat (length l) <= 2 ^ 30 ->
  exists i, binary_search (of_list l) (Z.of_nat (length l)) needle = Ret i /\
    (In needle l -> 0 <= i /\ nth_error l (Z.to_nat i) = Some needle) /\
    (~ In needle l -> i = -1).
Proof.
  intros Hs Hlen.
  destruct (binary_search_correct (of_list l) needle (sorted_of_list l Hs) Hlen)
    as [i [Hi Hspec]]; [simpl; lia|].
  exists i. split; [exact Hi|].
  destruct Hspec as [[Hin Hv] | [Hm Hno]].
  - simpl in Hin, Hv.
    assert (Hnth : nth_error l (Z.to_nat i) = Some needle).
    { rewrite <- Hv. apply nth_error_nth'. lia. }
    split; [intros _; split; [lia | exact Hnth]|].
    intros Hnot. exfalso. apply Hnot. eapply nth_error_In. exact Hnth.
  - rewrite occurs_of_list in Hno.
    split; [intros Hin; contradiction | intros _; exact Hm].
Qed.

Lemma binary_search_sorted_list_witness :
  exists i, binary_search (of_list [2; 3; 5; 7; 11]) 5 7 = Ret i /\
    (In 7 [2; 3; 5; 7; 11] ->
     0 <= i /\ nth_error [2; 3; 5; 7; 11] (Z.to_nat i) = Some 7) /\
    (~ In 7 [2; 3; 5; 7; 11] -> i = -1).
Proof.
  apply (binary_search_sorted_list [2; 3; 5; 7; 11] 7).
  - repeat first [lia | constructor].
  - vm_compute. discriminate.
Defined.

(** ** binary_stride on arbitrary input *)

Lemma descend_small (fuel : nat) (test : Z -> outcome bool) (sz : Z) :
  sz <= 1 -> descend fuel test sz = Ret 0.
Proof.
  intros Hsz. unfold descend.
  assert (Hq : Z.quot sz 2 <= 0).
  { change 0 with (Z.quot 1 2). apply Z.quot_le_mono; lia. }
  assert (Hone : (1 <=? Z.quot sz 2) = false) by (apply Z.leb_gt; lia).
  destruct fuel; simpl; now rewrite Hone.
Qed.

(** X7.  Whatever the array (sorted or not) and whatever [sz],
    [binary_stride] returns only -1 or an index inside the array that holds
    the needle; that index is 0 or lies below [sz]. *)
Theorem binary_stride_sound (a : array) (sz needle i : Z) :
  binary_stride a sz needle = Ret i ->
  i = -1 \/ (0 <= i < len a /\ elt a i = needle /\ (i = 0 \/ i < sz)).
Proof.
  unfold binary_stride, binary_stride_fuel. intros H.
  apply bind_ret_inv in H. destruct H as [pos [Hpos H]].
  apply bind_ret_inv in H. destruct H as [v [Hv H]].
  apply read_inv in Hv. destruct Hv as [Hin ->].
  unfold descend in Hpos. apply stride_for_inv in Hpos.
  destruct (elt a pos =? needle) eqn:Heq; [| left; congruence].
  apply Z.eqb_eq in Heq. inversion H. subst i. right.
  split; [exact Hin|]. split; [exact Heq|].
  destruct Hpos as [-> | Ht]; [left; reflexivity | right].
  unfold stride_test in Ht. destruct (pos <? sz) eqn:Hlt; [|discriminate].
  apply Z.ltb_lt. exact Hlt.
Qed.

Lemma binary_stride_sound_witness :
  1 = -1 \/ (0 <= 1 < len (of_list [9; 1; 7; 3]) /\
             elt (of_list [9; 1; 7; 3]) 1 = 1 /\ (1 = 0 \/ 1 < 4)).
Proof.
  apply (binary_stride_sound (of_list [9; 1; 7; 3]) 4 1 1).
  vm_compute. reflexivity.
Defined.

Section StrideSafe.

Variables (a : array) (sz needle : Z).
Hypothesis Hlen : sz <= len a.
Hypothesis Hbig : sz <= 1073741824.

Lemma advance_safe (stride : Z) :
  1 <= stride <= sz ->
  forall fuel pos,
    0 <= pos < sz ->
    (Z.to_nat (sz - pos) < fuel)%nat ->
    exists pos', advance fuel (stride_test a sz needle) pos stride = Ret pos' /\
                 pos <= pos' < sz.
Proof.
  intros Hs. induction fuel as [|fuel IH]; intros pos Hpos Hfuel; [lia|].
  simpl. rewrite add_ret by lia. simpl. unfold stride_test at 1.
  destruct (pos + stride <? sz) eqn:Hlt.
  - apply Z.ltb_lt in Hlt. rewrite read_ret by lia. simpl.
    destruct (elt a (pos + stride) <=? needle).
    + destruct (IH (pos + stride)) as [pos' [Hrun Hpos']]; try lia.
      exists pos'. split; [exact Hrun | lia].
    + exists pos. split; [reflexivity | lia].
  - simpl. exists pos. split; [reflexivity | lia].
Qed.

Lemma stride_for_safe (inner : nat) :
  (Z.to_nat sz < inner)%nat ->
  forall outer stride pos,
    0 <= stride < 2 ^ Z.of_nat outer ->
    stride <= sz ->
    0 <= pos < sz ->
    exists pos',
      stride_for outer (advance inner (stride_test a sz needle)) pos stride
      = Ret pos' /\ 0 <= pos' < sz.
Proof.
  intros Hinner. induction outer as [|outer IH]; intros stride pos Hs Hle Hpos.
  - simpl in Hs. assert (stride = 0) by lia. subst stride.
    exists pos. split; [reflexivity | lia].
  - rewrite Nat2Z.inj_succ, Z.pow_succ_r in Hs by lia.
    simpl. destruct (1 <=? stride) eqn:Hone.
    + apply Z.leb_le in Hone.
      destruct (advance_safe stride ltac:(lia) inner pos Hpos ltac:(lia))
        as [pos' [Hrun Hpos']].
      rewrite Hrun. simpl.
      rewrite Z.quot_div_nonneg by lia.
      assert (Hhalf : 2 * (stride / 2) <= stride < 2 * (stride / 2) + 2).
      { pose proof (Z.div_mod stride 2 ltac:(lia)).
        pose proof (Z.mod_pos_bound stride 2 ltac:(lia)). lia. }
      apply IH; lia.
    + exists pos. split; [reflexivity | lia].
Qed.

End StrideSafe.

(** X8.  When [sz] is at least 1 and exceeds neither the number of elements
    nor 2^30, [binary_stride] returns a value on every array, sorted or not:
    no read leaves the array and no sum overflows. *)
Theorem binary_stride_safe (a : array) (sz needle : Z) :
  1 <= sz <= len a ->
  sz <= 2 ^ 30 ->
  exists i, binary_stride a sz needle = Ret i.
Proof.
  change (2 ^ 30) with 1073741824. intros Hsz Hbig.
  assert (Hhalf : 2 * (sz / 2) <= sz).
  { pose proof (Z.div_mod sz 2 ltac:(lia)).
    pose proof (Z.mod_pos_bound sz 2 ltac:(lia)). lia. }
  assert (Hpow : sz / 2 < 2 ^ Z.of_nat (budget a)).
  { apply Z.lt_le_trans with (2 ^ 32); [change (2 ^ 32) with 4294967296; lia|].
    apply Z.pow_le_mono_r; unfold budget; lia. }
  assert (Hq : 0 <= sz / 2) by (apply Z.div_pos; lia).
  destruct (stride_for_safe a sz needle ltac:(lia) Hbig (budget a)
              ltac:(unfold budget; lia) (budget a) (sz / 2) 0
              ltac:(lia) ltac:(lia) ltac:(lia))
    as [pos [Hrun Hpos]].
  unfold binary_stride, binary_stride_fuel, descend.
  rewrite Z.quot_div_nonneg by lia. rewrite Hrun. cbn [bind].
  rewrite read_ret by lia. cbn [bind].
  destruct (elt a pos =? needle); eexists; reflexivity.
Qed.

Lemma binary_stride_safe_witness :
  exists i, binary_stride (of_list [9; 1; 7; 3]) 4 5 = Ret i.
Proof.
  apply (binary_stride_safe (of_list [9; 1; 7; 3]) 4 5).
  - vm_compute. split; discriminate.
  - vm_compute. discriminate.
Defined.

(** X10.  With a size of 1 or below, negative sizes included, the loops of
    [binary_stride] do not run and the answer is read off [a[0]] alone: 0
    when it is the needle, -1 when it is not (and the out-of-bounds read of
    [a[0]] when the array is empty). *)
Theorem binary_stride_small_size (a : array) (sz needle : Z) :
  sz <= 1 ->
  binary_stride a sz needle =
  (v <- read a 0 ;; if v =? needle then Ret 0 else Ret (-1)).
Proof.
  intros Hsz. unfold binary_stride, binary_stride_fuel.
  rewrite descend_small by exact Hsz. reflexivity.
Qed.

Lemma binary_stride_small_size_witness :
  binary_stride a1 (-5) 1 =
  (v <- read a1 0 ;; if v =? 1 then Ret 0 else Ret (-1)).
Proof.
  apply (binary_stride_small_size a1 (-5) 1). lia.
Defined.

(** X9.  On a non-empty sorted list of at most 2^30 elements
    [binary_stride] returns a value: the last index of the needle when the
    list holds it, -1 when it does not. *)
Theorem binary_stride_sorted_list (l : list Z) (needle : Z) :
  StronglySorted Z.le l ->
  l <> [] ->
  Z.of_nat (length l) <= 2 ^ 30 ->
  exists i, binary_stride (of_list l) (Z.of_nat (length l)) needle = Ret i /\
    (In needle l ->
     0 <= i /\ nth_error l (Z.to_nat i) = Some needle /\
     forall j, nth_error l j = Some needle -> (j <= Z.to_nat i)%nat) /\
    (~ In needle l -> i = -1).
Proof.
  intros Hs Hne Hlen.
  assert (Hpos : 1 <= len (of_list l)).
  { destruct l; [contradiction | simpl; lia]. }
  destruct (binary_stride_correct (of_list l) needle (sorted_of_list l Hs) Hpos Hlen)
    as [i [Hi Hspec]].
  exists i. split; [exact Hi|].
  destruct Hspec as [[Hin [Hv Hmax]] | [Hm Hno]].
  - simpl in Hin, Hv.
    assert (Hnth : nth_error l (Z.to_nat i) = Some needle).
    { rewrite <- Hv. apply nth_error_nth'. lia. }
    split.
    + intros _. split; [lia|]. split; [exact Hnth|].
      intros j Hj.
      assert (Hjl : (j < length l)%nat) by (apply nth_error_Some; congruence).
      specialize (Hmax (Z.of_nat j)). simpl in Hmax.
      rewrite Nat2Z.id in Hmax.
      assert (Z.of_nat j <= i); [|lia].
      apply Hmax; [lia|]. now apply nth_error_nth.
    + intros Hnot. exfalso. apply Hnot. eapply nth_error_In. exact Hnth.
  - rewrite occurs_of_list in Hno.
    split; [intros Hin; contradiction | intros _; exact Hm].
Qed.

Lemma binary_stride_sorted_list_witness :
  exists i, binary_stride (of_list [2; 5; 5; 5; 11]) 5 5 = Ret i /\
    (In 5 [2; 5; 5; 5; 11] ->
     0 <= i /\ nth_error [2; 5; 5; 5; 11] (Z.to_nat i) = Some 5 /\
     forall j, nth_error [2; 5; 5; 5; 11] j = Some 5 -> (j <= Z.to_nat i)%nat) /\
    (~ In 5 [2; 5; 5; 5; 11] -> i = -1).
Proof.
  apply (binary_stride_sorted_list [2; 5; 5; 5; 11] 5).
  - repeat first [lia | constructor].
  - discriminate.
  - vm_compute. discriminate.
Defined.

(** ** The probes of binary_stride on sorted arrays *)

Section TightDescent.

Variables (test : Z -> outcome bool) (t : Z).



End TightDescent.



(** ** What the stride loops depend on *)

Section DescentExt.

Variables test test' : Z -> outcome bool.
Hypothesis Hagree : forall p, 1 <= p -> test p = test' p.

Lemma advance_ext (stride : Z) :
  1 <= stride ->
  forall fuel pos,
    0 <= pos ->
    advance fuel test pos stride = advance fuel test' pos stride.
Proof.
  intros Hs. induction fuel as [|fuel IH]; intros pos Hpos; [reflexivity|].
  simpl. apply bind_ext. intros p Hp. apply add_inv in Hp.
  rewrite <- Hagree by lia.
  apply bind_ext. intros [|] _; [apply IH; lia | reflexivity].
Qed.

Lemma stride_for_ext (inner : nat) :
  forall outer stride pos,
    0 <= pos ->
    stride_for outer (advance inner test) pos stride =
    stride_for outer (advance inner test') pos stride.
Proof.
  induction outer as [|outer IH]; intros stride pos Hpos; [reflexivity|].
  simpl. destruct (1 <=? stride) eqn:Hone; [|reflexivity].
  apply Z.leb_le in Hone.
  rewrite <- (advance_ext stride Hone inner pos Hpos).
  apply bind_ext. intros pos' Hrun.
  apply advance_ge in Hrun; [|exact Hone]. apply IH. lia.
Qed.

Lemma descend_ext (fuel : nat) (sz : Z) :
  descend fuel test sz = descend fuel test' sz.
Proof. unfold descend. apply stride_for_ext. lia. Qed.

End DescentExt.

(** X12.  [binary_stride] looks at the indices below [sz] only (and at
    index 0): replacing the elements elsewhere does not change the
    outcome. *)
Theorem binary_stride_prefix_only (a : array) (contents : Z -> Z)
    (sz needle : Z) :
  (forall i, 0 <= i < Z.max sz 1 -> contents i = elt a i) ->
  binary_stride (mkArray (len a) contents) sz needle =
  binary_stride a sz needle.
Proof.
  intros Hsame.
  assert (Hread : forall i, i < Z.max sz 1 ->
                    read (mkArray (len a) contents) i = read a i).
  { intros i Hi. unfold read. simpl.
    destruct ((0 <=? i) && (i <? len a)) eqn:Hin; [|reflexivity].
    apply andb_true_iff in Hin. destruct Hin as [H0 _].
    apply Z.leb_le in H0. rewrite Hsame by lia. reflexivity. }
  unfold binary_stride, binary_stride_fuel, budget. simpl len.
  rewrite (descend_ext (stride_test (mkArray (len a) contents) sz needle)
                       (stride_test a sz needle)).
  - apply bind_ext. intros pos Hpos.
    unfold descend in Hpos. apply stride_for_inv in Hpos.
    rewrite Hread; [reflexivity|].
    destruct Hpos as [-> | Ht]; [lia|].
    unfold stride_test in Ht. destruct (pos <? sz) eqn:Hlt; [|discriminate].
    apply Z.ltb_lt in Hlt. lia.
  - intros p Hp. unfold stride_test.
    destruct (p <? sz) eqn:Hlt; [|reflexivity].
    apply Z.ltb_lt in Hlt. rewrite Hread by lia. reflexivity.
Qed.

Lemma binary_stride_prefix_only_witness :
  binary_stride (mkArray (len (of_list [1; 4; 9; 3; 3]))
                   (fun i => if i <? 3 then elt a4 i else 100)) 3 9 =
  binary_stride (of_list [1; 4; 9; 3; 3]) 3 9.
Proof.
  apply (binary_stride_prefix_only (of_list [1; 4; 9; 3; 3])
           (fun i => if i <? 3 then elt a4 i else 100) 3 9).
  intros i Hi. assert (Hi' : i = 0 \/ i = 1 \/ i = 2) by lia.
  destruct Hi' as [-> | [-> | ->]]; reflexivity.
Defined.

(** X13.  On a sorted array of 1 to 2^30 elements both searches return, they
    find the needle or miss it together, and the index of [binary_search]
    is never beyond the index of [binary_stride]. *)
Theorem binary_search_not_after_binary_stride (a : array) (needle : Z) :
  sorted a ->
  1 <= len a <= 2 ^ 30 ->
  exists i j,
    binary_search a (len a) needle = Ret i /\
    binary_stride a (len a) needle = Ret j /\
    (i = -1 <-> j = -1) /\ i <= j.
Proof.
  intros Hsorted [Hne Hlen].
  destruct (binary_search_correct a needle Hsorted Hlen ltac:(lia))
    as [i [Hi Hsi]].
  destruct (binary_stride_correct a needle Hsorted Hne Hlen) as [j [Hj Hsj]].
  exists i, j. split; [exact Hi|]. split; [exact Hj|].
  destruct Hsi as [[Hin Hv] | [Hm Hno]];
    destruct Hsj as [[Hjn [Hjv Hmax]] | [Hjm Hjno]].
  - split; [lia|]. apply Hmax; assumption.
  - exfalso. apply Hjno. exists i. auto.
  - exfalso. apply Hno. exists j. auto.
  - lia.
Qed.

Lemma binary_search_not_after_binary_stride_witness :
  exists i j,
    binary_search (of_list [5; 5; 5; 5; 5; 5]) (len (of_list [5; 5; 5; 5; 5; 5])) 5
    = Ret i /\
    binary_stride (of_list [5; 5; 5; 5; 5; 5]) (len (of_list [5; 5; 5; 5; 5; 5])) 5
    = Ret j /\
    (i = -1 <-> j = -1) /\ i <= j.
Proof.
  apply (binary_search_not_after_binary_stride (of_list [5; 5; 5; 5; 5; 5]) 5).
  - apply sorted_of_list. repeat first [lia | constructor].
  - vm_compute. split; discriminate.
Defined.

(** ** find_crossover_point beyond the threshold case *)

(** X14.  With a size of 1 or below, negative sizes included,
    [find_crossover_point] returns 0 without a read and without a call of
    [fn], whatever the array. *)
Theorem find_crossover_point_small_size (fn : Z -> Z) (a : array) (sz : Z) :
  sz <= 1 ->
  find_crossover_point fn a sz = Ret 0.
Proof.
  intros Hsz. unfold find_crossover_point, find_crossover_point_fuel.
  apply descend_small. exact Hsz.
Qed.

Lemma find_crossover_point_small_size_witness :
  find_crossover_point (fun x => x) a7 1 = Ret 0.
Proof.
  apply (find_crossover_point_small_size (fun x => x) a7 1). lia.
Defined.

(** X15.  [find_crossover_point] never looks at [a[0]]: every probe is at
    [pos+stride >= 1], so replacing the first element does not change the
    outcome, and a function that is positive from index 0 on is not told
    from one that turns positive at index 1. *)
Theorem find_crossover_point_ignores_first (fn : Z -> Z) (a : array)
    (contents : Z -> Z) (sz : Z) :
  (forall i, 1 <= i -> contents i = elt a i) ->
  find_crossover_point fn (mkArray (len a) contents) sz =
  find_crossover_point fn a sz.
Proof.
  intros Hsame.
  unfold find_crossover_point, find_crossover_point_fuel, budget. simpl len.
  apply descend_ext. intros p Hp.
  unfold crossover_test, read. simpl. rewrite Hsame by exact Hp. reflexivity.
Qed.

Lemma find_crossover_point_ignores_first_witness :
  find_crossover_point (fun x => x)
    (mkArray (len (of_list [-5; 1; 2; 3]))
             (fun i => if i =? 0 then 7 else elt (of_list [-5; 1; 2; 3]) i)) 4 =
  find_crossover_point (fun x => x) (of_list [-5; 1; 2; 3]) 4.
Proof.
  apply (find_crossover_point_ignores_first (fun x => x) (of_list [-5; 1; 2; 3])
           (fun i => if i =? 0 then 7 else elt (of_list [-5; 1; 2; 3]) i) 4).
  intros i Hi. replace (i =? 0) with false by (symmetry; apply Z.eqb_neq; lia).
  reflexivity.
Defined.

(** X16.  [sz] fixes the first stride of [find_crossover_point] and nothing
    else: with [sz >= 2], a function non-positive on [[0, k)] and positive
    from [k] to the end of the array, and an array that extends at least
    [sz/2] beyond [k], the result is [k - 1], also when that lies at [sz] or
    beyond. *)
Theorem find_crossover_point_beyond_size (fn : Z -> Z) (a : array) (sz k : Z) :
  2 <= sz <= Int.max_int ->
  1 <= k ->
  k + sz / 2 <= len a <= Int.max_int ->
  (forall i, 0 <= i < k -> fn (elt a i) <= 0) ->
  (forall i, k <= i < len a -> 0 < fn (elt a i)) ->
  find_crossover_point fn a sz = Ret (k - 1).
Proof.
  unfold Int.max_int. change (2 ^ 31 - 1) with 2147483647.
  intros Hsz Hk Hroom Hlow Hhigh.
  replace (k - 1) with (Z.max 0 (k - 1)) by lia.
  apply crossover_descent; try assumption; lia.
Qed.

Lemma find_crossover_point_beyond_size_witness :
  find_crossover_point (fun x => x) (of_list [-6; -5; -4; -3; -2; -1; 1; 2]) 2
  = Ret (6 - 1).
Proof.
  apply (find_crossover_point_beyond_size
           (fun x => x) (of_list [-6; -5; -4; -3; -2; -1; 1; 2]) 2 6).
  - vm_compute. split; discriminate.
  - lia.
  - vm_compute. split; discriminate.
  - intros i Hi.
    assert (Hi' : i = 0 \/ i = 1 \/ i = 2 \/ i = 3 \/ i = 4 \/ i = 5) by lia.
    destruct Hi' as [-> | [-> | [-> | [-> | [-> | ->]]]]];
      vm_compute; discriminate.
  - intros i Hi. simpl in Hi.
    assert (Hi' : i = 6 \/ i = 7) by lia.
    destruct Hi' as [-> | ->]; vm_compute; reflexivity.
Defined.

(** X17.  Where [fn] is positive nowhere in the array and [sz >= 2],
    [find_crossover_point] returns nothing: the run ends in a fault, the
    read past the end of the array or the overflow of [pos+stride]. *)
Theorem find_crossover_point_faults_without_crossing
    (fn : Z -> Z) (a : array) (sz : Z) :
  2 <= sz ->
  (forall i, 0 <= i < len a -> fn (elt a i) <= 0) ->
  exists f, find_crossover_point fn a sz = Fault f.
Proof.
  intros Hsz Hneg.
  pose proof (find_crossover_point_halts fn a sz) as Hhalt.
  pose proof (crossover_nonpositive_never_returns fn a sz Hsz Hneg (budget a))
    as Hnever.
  unfold find_crossover_point in *.
  destruct (find_crossover_point_fuel fn (budget a) a sz) as [r|f|].
  - exfalso. exact (Hnever r eq_refl).
  - exists f. reflexivity.
  - exfalso. exact (Hhalt eq_refl).
Qed.

Lemma find_crossover_point_faults_without_crossing_witness :
  exists f, find_crossover_point (fun x => x - 10) (of_list [1; 2; 3; 4; 5]) 5
            = Fault f.
Proof.
  apply (find_crossover_point_faults_without_crossing
           (fun x => x - 10) (of_list [1; 2; 3; 4; 5]) 5).
  - lia.
  - intros i Hi. simpl in Hi.
    assert (Hi' : i = 0 \/ i = 1 \/ i = 2 \/ i = 3 \/ i = 4) by lia.
    destruct Hi' as [-> | [-> | [-> | [-> | ->]]]]; vm_compute; discriminate.
Defined.

(** ** binary_stride as a guarded find_crossover_point *)

Section DescentMono.

Variables test test' : Z -> outcome bool.
Hypothesis Hfollow : forall p b, test p = Ret b -> test' p = Ret b.

Lemma advance_follow (stride : Z) :
  forall fuel pos r,
    advance fuel test pos stride = Ret r ->
    advance fuel test' pos stride = Ret r.
Proof.
  induction fuel as [|fuel IH]; intros pos r H; [discriminate|].
  simpl in H. simpl.
  destruct (add pos stride) as [p| |]; simpl in *; try discriminate.
  destruct (test p) as [b| |] eqn:Hp; simpl in H; try discriminate.
  rewrite (Hfollow p b Hp). simpl.
  destruct b; [apply IH; exact H | exact H].
Qed.

Lemma stride_for_follow (inner : nat) :
  forall outer pos stride r,
    stride_for outer (advance inner test) pos stride = Ret r ->
    stride_for outer (advance inner test') pos stride = Ret r.
Proof.
  induction outer as [|outer IH]; intros pos stride r H; simpl in *.
  - exact H.
  - destruct (1 <=? stride); [| exact H].
    destruct (advance inner test pos stride) as [q| |] eqn:Hq; simpl in H;
      try discriminate.
    rewrite (advance_follow stride inner pos q Hq). simpl.
    apply IH. exact H.
Qed.

End DescentMono.

(** X18.  [binary_stride] is [find_crossover_point] with the bounds test and
    the final comparison added.  Let [fn] be non-positive exactly on the
    values up to the needle, and [sz] cover the array: whenever
    [find_crossover_point] returns a position, [binary_stride] ends its
    loops on the same position and answers by comparing the element there
    with the needle. *)
Theorem binary_stride_follows_crossover (fn : Z -> Z) (a : array)
    (sz needle p : Z) :
  (forall v, fn v <= 0 <-> v <= needle) ->
  len a <= sz ->
  find_crossover_point fn a sz = Ret p ->
  binary_stride a sz needle =
  (v <- read a p ;; if v =? needle then Ret p else Ret (-1)).
Proof.
  intros Hfn Hlen Hrun.
  unfold find_crossover_point, find_crossover_point_fuel, descend in Hrun.
  apply (stride_for_follow (crossover_test fn a) (stride_test a sz needle))
    in Hrun.
  - unfold binary_stride, binary_stride_fuel, descend.
    rewrite Hrun. reflexivity.
  - intros q b Hq. unfold crossover_test in Hq.
    apply bind_ret_inv in Hq. destruct Hq as [v [Hv Hb]].
    pose proof (read_inv a q v Hv) as [Hin _].
    unfold stride_test. replace (q <? sz) with true
      by (symmetry; apply Z.ltb_lt; lia).
    rewrite Hv. simpl. inversion Hb. f_equal. symmetry.
    destruct (v <=? needle) eqn:Hle.
    + apply Z.leb_le in Hle. apply Z.leb_le. apply Hfn. exact Hle.
    + apply Z.leb_gt in Hle. apply Z.leb_gt.
      destruct (Z_le_gt_dec (fn v) 0) as [Hneg | Hneg]; [|lia].
      apply Hfn in Hneg. lia.
Qed.

Lemma binary_stride_follows_crossover_witness :
  binary_stride (of_list [1; 3; 5; 7; 9; 11; 13]) 7 5 =
  (v <- read (of_list [1; 3; 5; 7; 9; 11; 13]) 2 ;;
   if v =? 5 then Ret 2 else Ret (-1)).
Proof.
  apply (binary_stride_follows_crossover (fun v => v - 5)
           (of_list [1; 3; 5; 7; 9; 11; 13]) 7 5 2).
  - intros v. lia.
  - vm_compute. discriminate.
  - vm_compute. reflexivity.
Defined.

(** ** The test program *)

(** X19.  [main] prints 3, 3, 0, 1, 1, 0 and then calls [binary_stride] on
    the empty array [a7], where the run ends in the read of [a7[0]]; the 18
    statements after that call would print six times 4 (every index handed
    to [a[...]] is a found one) and twelve times -1. *)
Theorem main_stops_at_the_empty_array :
  main = ([3; 3; 0; 1; 1; 0], Fault (OutOfBounds 0)) /\
  print_all (skipn 7 main_prints) =
  ([4; 4; 4; 4; 4; 4; -1; -1; -1; -1; -1; -1; -1; -1; -1; -1; -1; -1], Ret tt).
Proof. vm_compute. split; reflexivity. Qed.
